(** * JACK: the command-line client and the ffad URL table

    A shallow embedding of

    - [src/jack/clients/CommandLineClient.py]: a line-based TCP client
      (Python 2) made of an interactive sender built on the standard
      [cmd.Cmd] interpreter and of a background receiver thread;
    - [web/ffad/urls.py]: the Django URL table of the draft application.

    Python 2 [str] values are byte strings and are modelled as lists of
    [ascii]; everything a thread does to the outside world (socket, standard
    output, thread start) is recorded, in program order, in a trace of
    [effect]s.  The network is the environment: a trace records the calls
    the program issues, under a host name that resolves and a peer that
    accepts the connection and every send. *)

From Stdlib Require Import Ascii String DecimalString.
From Stdlib Require Import List Bool Arith ZArith Lia.
Import ListNotations.

Set Implicit Arguments.

(** ** Byte strings *)

Definition str := list ascii.

(** A literal of the source, such as ['127.0.0.1']. *)
Definition lit (s : string) : str := list_ascii_of_string s.
Arguments lit s%_string.

Definition LF : ascii := ascii_of_nat 10.
Definition CR : ascii := ascii_of_nat 13.
Definition SP : ascii := ascii_of_nat 32.

Definition str_eqb (a b : str) : bool :=
  if list_eq_dec ascii_dec a b then true else false.

(** [isspace] of the C locale, the class [str.strip] and [str.rstrip]
    remove when called without argument: tab, line feed, vertical tab, form
    feed, carriage return and space. *)
Definition isspace (c : ascii) : bool :=
  let n := nat_of_ascii c in
  ((9 <=? n) && (n <=? 13)) || (n =? 32).

(** [s.lstrip()]: advance over the leading white space. *)
Fixpoint lstrip (s : str) : str :=
  match s with
  | [] => []
  | c :: t => if isspace c then lstrip t else s
  end.

(** [s.rstrip()]: drop the maximal run of white space that ends the string. *)
Fixpoint rstrip (s : str) : str :=
  match s with
  | [] => []
  | c :: t =>
      match rstrip t with
      | [] => if isspace c then [] else [c]
      | r => c :: r
      end
  end.

(** [s.strip()] *)
Definition strip (s : str) : str := rstrip (lstrip s).

(** ** Effects *)

Inductive effect : Type :=
| SocketCreate                              (* socket.socket(AF_INET, SOCK_STREAM) *)
| SockConnect (host : str) (port : Z)       (* sock.connect((host, port)) *)
| SockSend (data : str)                     (* sock.send(data) *)
| SockMakefile                              (* sock.makefile() *)
| FileClose                                 (* f.close(), by contextlib.closing *)
| StdoutWrite (text : str)                  (* bytes written to standard output *)
| HelpOutput (arg : str)                    (* cmd.Cmd.do_help(arg): help text on standard output *)
| ThreadStart (daemon : bool).              (* receiver.start() *)

(** The Python 2 statement [print a, b]: the items separated by one space,
    then a newline.  (The space is left out after an item that ends in a
    tab or a newline; no item of this program does.) *)
Fixpoint join_sp (items : list str) : str :=
  match items with
  | [] => []
  | [x] => x
  | x :: rest => x ++ SP :: join_sp rest
  end.

Definition print_stmt (items : list str) : effect :=
  StdoutWrite (join_sp items ++ [LF]).

(** ** Receiver *)

(** [f.readline()] on the file object of the socket: the bytes up to and
    including the first line feed, or everything that is left when the
    stream ends before one.  Returns the line and the rest of the stream. *)
Fixpoint readline (buf : str) : str * str :=
  match buf with
  | [] => ([], [])
  | c :: t =>
      if ascii_dec c LF then ([c], t)
      else let (l, r) := readline t in (c :: l, r)
  end.

(** [for message in f]: [next] calls [readline] and stops at the first empty
    result.  [fuel] bounds the number of iterations. *)
Fixpoint iter_file (fuel : nat) (buf : str) : list str :=
  match fuel with
  | O => []
  | S n =>
      match readline buf with
      | ([], _) => []
      | (l, r) => l :: iter_file n r
      end
  end.

(** Every line takes at least one byte, so one iteration per byte and one
    more for the end of the stream are enough. *)
Definition file_lines (buf : str) : list str :=
  iter_file (S (length buf)) buf.

(** The body of the loop of [Receiver.run]:
    [print '\r>>>>', message.rstrip()]. *)
Definition on_message (message : str) : effect :=
  print_stmt [CR :: lit ">>>>"; rstrip message].

(** [Receiver.__init__]: [self.daemon = True]. *)
Definition Receiver_daemon : bool := true.

(** [Receiver.run], on the bytes the peer sends until it closes. *)
Definition Receiver_run (inbound : str) : list effect :=
  SockMakefile :: map on_message (file_lines inbound) ++ [FileClose].

(** What the receiver's output looks like when message [m] is displayed. *)
Definition displayed (m : str) : effect :=
  StdoutWrite (CR :: lit ">>>> " ++ m ++ [LF]).

(** The wire image of a sequence of frames: each followed by a line feed. *)
Definition wire (frames : list str) : str :=
  concat (map (fun l => l ++ [LF]) frames).

(** [no_LF l]: no line feed inside [l]. *)
Fixpoint no_LF (l : str) : bool :=
  match l with
  | [] => true
  | c :: t => if ascii_dec c LF then false else no_LF t
  end.

(** The frames a stream is made of: complete lines, then what follows the
    last line feed when the stream does not end on one. *)
Definition tail_frame (partial : str) : list str :=
  match partial with
  | [] => []
  | _ => [partial]
  end.

(** [ends_space s]: the last byte of [s] is white space. *)
Definition ends_space (s : str) : bool :=
  match rev s with
  | [] => false
  | c :: _ => isspace c
  end.

(** ** The interactive sender: [cmd.Cmd] and [CommandLineClient] *)

(** [CommandLineClient] overrides [default] only; the loop and the dispatch
    are those of the standard library's [cmd.Cmd] (Lib/cmd.py), method by
    method. *)

(** [cmd.IDENTCHARS]: the ASCII letters, the digits and the underscore. *)
Definition identchar (c : ascii) : bool :=
  let n := nat_of_ascii c in
  ((65 <=? n) && (n <=? 90)) || ((97 <=? n) && (n <=? 122))
  || ((48 <=? n) && (n <=? 57)) || (n =? 95).

(** The index [i] reached by
    [while i < n and line[i] in self.identchars: i = i+1]. *)
Fixpoint ident_len (line : str) : nat :=
  match line with
  | [] => O
  | c :: t => if identchar c then S (ident_len t) else O
  end.

(** The interpreter's state that the loop reads and writes.  [sock] is set
    once and [cmdqueue] stays empty: nothing in the program fills it. *)
Record CommandLineClient : Type := { lastcmd : str }.

(** [cmd.Cmd.lastcmd = ''] *)
Definition new_client : CommandLineClient := {| lastcmd := [] |}.

(** [CommandLineClient.prompt] *)
Definition prompt : str := lit "<<<< ".

(** The [do_*] methods of the class: [CommandLineClient] defines none and
    inherits [do_help] from [cmd.Cmd]. *)
Inductive method : Type := do_help.

(** [getattr(self, 'do_' + cmd)]; [None] is the [AttributeError]. *)
Definition getattr_do (cmd : str) : option method :=
  if str_eqb cmd (lit "help") then Some do_help else None.

(** [cmd.Cmd.parseline]: [(cmd, arg, line)]. *)
Definition parseline (line : str) : option str * option str * str :=
  let line := strip line in
  let split (line : str) :=
    let i := ident_len line in
    (Some (firstn i line), Some (strip (skipn i line)), line) in
  match line with
  | [] => (None, None, line)
  | c :: rest =>
      if ascii_dec c "?" then split (lit "help " ++ rest)
      else if ascii_dec c "!" then
        match getattr_do (lit "shell") with
        | Some _ => split (lit "shell " ++ rest)
        | None => (None, None, line)
        end
      else split line
  end.

(** The result of a command: the state, what it did, and the stop flag (a
    result of [None] is a false flag). *)
Definition reply : Type := CommandLineClient * list effect * bool.

(** [CommandLineClient.default]: [self.sock.send(line + '\n')]. *)
Definition default (self : CommandLineClient) (line : str) : reply :=
  (self, [SockSend (line ++ [LF])], false).

(** [cmd.Cmd.do_help]: writes to standard output only. *)
Definition call (m : method) (self : CommandLineClient) (arg : str) : reply :=
  match m with
  | do_help => (self, [HelpOutput arg], false)
  end.

(** [cmd.Cmd.onecmd], with [cmd.Cmd.emptyline] in its place.  The two
    methods call each other; [depth] bounds the nesting of calls, and [None]
    is a recursion that did not end within it. *)
Fixpoint onecmd (depth : nat) (self : CommandLineClient) (line : str)
  : option reply :=
  match depth with
  | O => None
  | S d =>
      match parseline line with
      | (_, _, []) =>
          (* emptyline *)
          match lastcmd self with
          | [] => Some (self, [], false)
          | last => onecmd d self last
          end
      | (None, _, line) => Some (default self line)
      | (Some cmd, arg, line) =>
          let self := {| lastcmd := line |} in
          let self :=
            if str_eqb line (lit "EOF") then {| lastcmd := [] |} else self in
          match cmd with
          | [] => Some (default self line)
          | _ =>
              match getattr_do cmd with
              | None => Some (default self line)
              | Some func =>
                  Some (call func self (match arg with Some a => a | None => [] end))
              end
          end
      end
  end.

(** [raw_input(self.prompt)] on the lines left on standard input: [None] is
    the [EOFError] at the end of the input. *)
Definition raw_input (stdin : list str) : option str * list str :=
  match stdin with
  | [] => (None, [])
  | l :: rest => (Some l, rest)
  end.

(** [cmd.Cmd.precmd] and [cmd.Cmd.postcmd], not overridden. *)
Definition precmd (line : str) : str := line.
Definition postcmd (stop : bool) (line : str) : bool := stop.

Inductive exn : Type := ValueError | OverflowError | RuntimeError.

(** How a run ends: it returns, it raises, or it is still going on when the
    observation stops; each with what it has done so far. *)
Inductive outcome : Type :=
| Finished (trace : list effect)
| Raised (e : exn) (trace : list effect)
| Running (trace : list effect).

Definition after (t : list effect) (o : outcome) : outcome :=
  match o with
  | Finished t' => Finished (t ++ t')
  | Raised e t' => Raised e (t ++ t')
  | Running t' => Running (t ++ t')
  end.

Definition trace_of (o : outcome) : list effect :=
  match o with
  | Finished t | Raised _ t | Running t => t
  end.

(** [cmd.Cmd.cmdloop], observed for [fuel] iterations of [while not stop]. *)
Fixpoint cmdloop (depth fuel : nat) (self : CommandLineClient)
    (stdin : list str) : outcome :=
  match fuel with
  | O => Running []
  | S n =>
      let (input, rest) := raw_input stdin in
      let line := match input with Some l => l | None => lit "EOF" end in
      let line := precmd line in
      match onecmd depth self line with
      | None => Raised RuntimeError [StdoutWrite prompt]
      | Some (self', did, stop) =>
          let stop := postcmd stop line in
          if stop then Finished (StdoutWrite prompt :: did)
          else after (StdoutWrite prompt :: did) (cmdloop depth n self' rest)
      end
  end.

(** ** [main] *)

(** [str(port)] *)
Definition str_of_Z (z : Z) : str := lit (NilEmpty.string_of_int (Z.to_int z)).

(** The ports [sock.connect] takes: outside [0..65535] the call raises
    [OverflowError] (port must be 0-65535) once the host is resolved. *)
Definition port_ok (port : Z) : bool := ((0 <=? port) && (port <=? 65535))%Z.

(** [main(argv)].  [py_int] is the builtin [int] on a [str]: the value, or
    [None] for its [ValueError].  The call [sock.connect((host, port))] is
    recorded when it is issued; with a port out of range it raises, after
    the socket was created and before the banner. *)
Definition main (py_int : str -> option Z) (depth fuel : nat)
    (argv : list str) (stdin : list str) : outcome :=
  let host := if 1 <? length argv then nth 1 argv [] else lit "127.0.0.1" in
  match (if 2 <? length argv then py_int (nth 2 argv []) else Some 1300%Z) with
  | None => Raised ValueError []
  | Some port =>
      if port_ok port then
        after [ SocketCreate;
                SockConnect host port;
                print_stmt [lit "==== Connected to";
                            host ++ lit ":" ++ str_of_Z port;
                            lit "===="];
                ThreadStart Receiver_daemon ]
              (cmdloop depth fuel new_client stdin)
      else Raised OverflowError [SocketCreate; SockConnect host port]
  end.

(** The bytes handed to [sock.send], call by call. *)
Definition sent (t : list effect) : list str :=
  flat_map (fun e => match e with SockSend d => [d] | _ => [] end) t.

(** The targets of the [sock.connect] calls. *)
Definition connects (t : list effect) : list (str * Z) :=
  flat_map (fun e => match e with SockConnect h p => [(h, p)] | _ => [] end) t.

(** A plain decimal reading of a port argument: optional sign, then digits,
    white space allowed around.  It stands for [int] where a concrete
    conversion is needed. *)
Definition isdigit (c : ascii) : bool :=
  let n := nat_of_ascii c in (48 <=? n) && (n <=? 57).

Fixpoint digits_value (acc : Z) (s : str) : option Z :=
  match s with
  | [] => Some acc
  | c :: t =>
      if isdigit c
      then digits_value (10 * acc + Z.of_nat (nat_of_ascii c - 48))%Z t
      else None
  end.

Definition decimal_int (s : str) : option Z :=
  match strip s with
  | [] => None
  | c :: t =>
      if ascii_dec c "-" then
        match t with [] => None | _ => option_map Z.opp (digits_value 0 t) end
      else if ascii_dec c "+" then
        match t with [] => None | _ => digits_value 0 t end
      else digits_value 0 (c :: t)
  end.

(** ** The URL table of [ffad] *)

(** Django matches the request path, a text string, against each pattern
    in turn with [regex.search].  Characters are code points. *)
Definition uchar := N.
Definition ustr := list uchar.

Definition ulit (s : string) : ustr := map N_of_ascii (list_ascii_of_string s).
Arguments ulit s%_string.

Definition ustr_eqb (a b : ustr) : bool :=
  if list_eq_dec N.eq_dec a b then true else false.

(** The fragment of regular expressions the table is written in. *)
Inductive regex_item : Type :=
| Bol                               (* ^ *)
| Eol                               (* $ *)
| Chars (s : ustr)                  (* literal text *)
| NamedDigits (name : string).      (* (?P<name>\d+) *)

Definition regex := list regex_item.

(** [match.groupdict()] *)
Definition groupdict := list (string * ustr).

(** The first success of [f k] for [k = n, n-1, ..., 1]: a greedy
    repetition gives back one character at a time. *)
Fixpoint try_down (A : Type) (n : nat) (f : nat -> option A) : option A :=
  match n with
  | O => None
  | S m =>
      match f n with
      | Some r => Some r
      | None => try_down m f
      end
  end.

(** [strip_prefix l s]: what follows [l] in [s], when [s] starts with [l]. *)
Fixpoint strip_prefix (l s : ustr) : option ustr :=
  match l, s with
  | [], _ => Some s
  | _ :: _, [] => None
  | a :: l', b :: s' => if N.eqb a b then strip_prefix l' s' else None
  end.

Section Matcher.

(** The class [\d]: the decimal digits of the character database in use
    (the ASCII digits for a byte pattern, every Unicode decimal digit
    under [re.UNICODE]). *)
Variable is_digit : uchar -> bool.

(** The length of the longest run of digits that starts [s]. *)
Fixpoint digit_run (s : ustr) : nat :=
  match s with
  | [] => O
  | c :: t => if is_digit c then S (digit_run t) else O
  end.

(** Match [re] at the current position; [at_start] tells whether that
    position is the start of the string, [s] is the text from the position
    on.  [$] holds at the end of the string and just before a line feed
    that ends it. *)
Fixpoint match_here (re : regex) (at_start : bool) (s : ustr)
    (groups : groupdict) : option groupdict :=
  match re with
  | [] => Some groups
  | Bol :: re' => if at_start then match_here re' at_start s groups else None
  | Eol :: re' =>
      if ustr_eqb s [] || ustr_eqb s [10%N]
      then match_here re' at_start s groups else None
  | Chars l :: re' =>
      match strip_prefix l s with
      | Some s' =>
          match_here re' (at_start && (length l =? 0)) s' groups
      | None => None
      end
  | NamedDigits name :: re' =>
      try_down (digit_run s)
        (fun k => match_here re' false (skipn k s)
                    (groups ++ [(name, firstn k s)]))
  end.

(** [regex.search(s)]: the first position, from the left, with a match. *)
Fixpoint search_from (re : regex) (at_start : bool) (s : ustr)
    : option groupdict :=
  match match_here re at_start s [] with
  | Some g => Some g
  | None =>
      match s with
      | [] => None
      | _ :: t => search_from re false t
      end
  end.

Definition re_search (re : regex) (s : ustr) : option groupdict :=
  search_from re true s.

End Matcher.

(** The functions of [ffad.views] the table names. *)
Inductive view : Type :=
| index | draft | register | get_manager_updates | get_player_updates
| get_team | place_bid.

(** [url(regex, view, name=...)] *)
Record url_pattern : Type :=
  { pattern : regex; callback : view; name : option string }.

Definition url (re : regex) (v : view) : url_pattern :=
  {| pattern := re; callback := v; name := None |}.

(** [urls.urlpatterns] *)
Definition urlpatterns : list url_pattern :=
  [ {| pattern := [Bol; Eol]; callback := index; name := Some "index"%string |};
    url [Bol; NamedDigits "draft_id"; Chars (ulit "/"); Eol] draft;
    url [Bol; NamedDigits "draft_id"; Chars (ulit "/register"); Eol] register;
    url [Bol; NamedDigits "draft_id"; Chars (ulit "/get_manager_updates"); Eol]
        get_manager_updates;
    url [Bol; NamedDigits "draft_id"; Chars (ulit "/get_player_updates"); Eol]
        get_player_updates;
    url [Bol; NamedDigits "draft_id"; Chars (ulit "/get_team"); Eol] get_team;
    url [Bol; NamedDigits "draft_id"; Chars (ulit "/place_bid"); Eol] place_bid ].

(** The resolver: the first pattern of the table that matches wins; the view
    is called with the named groups as keyword arguments.  [None] is
    [Resolver404]. *)
Fixpoint resolve (is_digit : uchar -> bool) (table : list url_pattern)
    (path : ustr) : option (view * groupdict) :=
  match table with
  | [] => None
  | p :: rest =>
      match re_search is_digit (pattern p) path with
      | Some kwargs => Some (callback p, kwargs)
      | None => resolve is_digit rest path
      end
  end.

(** The routes that bind [draft_id]: all but [index]. *)
Definition draft_routes : list url_pattern := tl urlpatterns.

(** The first segment of a path: what precedes its first slash. *)
Fixpoint leading_segment (path : ustr) : ustr :=
  match path with
  | [] => []
  | c :: t => if N.eqb c 47 then [] else c :: leading_segment t
  end.

(** The ASCII digits. *)
Definition ascii_digit (c : uchar) : bool := ((48 <=? c) && (c <=? 57))%N.

(** ** Vocabulary of the statements *)

(** What a command did. *)
Definition did (r : reply) : list effect := snd (fst r).

(** [ends_LF s]: the last byte of [s] is a line feed. *)
Definition ends_LF (s : str) : bool :=
  match rev s with
  | [] => false
  | c :: _ => if ascii_dec c LF then true else false
  end.

(** The bytes [Send(line)] writes according to the specification: a line
    feed is appended only when [line] does not end in one. *)
Definition spec_Send_bytes (line : str) : str :=
  if ends_LF line then line else line ++ [LF].

(** The input lines that reach [default]: not blank, not starting with a
    question mark, and whose leading word is not [help]. *)
Definition forwarded (line : str) : bool :=
  match strip line with
  | [] => false
  | c :: rest =>
      negb (if ascii_dec c "?" then true else false)
      && negb (str_eqb (firstn (ident_len (c :: rest)) (c :: rest)) (lit "help"))
  end.

(** The effects a command of the interpreter can have. *)
Definition send_or_help (e : effect) : bool :=
  match e with
  | SockSend _ | HelpOutput _ => true
  | _ => false
  end.

(** The shape of the routes of a draft: [^(?P<name>\d+)/text$]. *)
Definition route (name : string) (text : ustr) : regex :=
  [Bol; NamedDigits name; Chars (47%N :: text); Eol].

(** [ends_here text rest]: [text] then [$] match at [rest]. *)
Definition ends_here (text rest : ustr) : bool :=
  match strip_prefix text rest with
  | Some s' => ustr_eqb s' [] || ustr_eqb s' [10%N]
  | None => false
  end.

(** [has_nondigit is_digit s]: some character of [s] is not in [\d]. *)
Definition has_nondigit (is_digit : uchar -> bool) (s : ustr) : bool :=
  existsb (fun c => negb (is_digit c)) s.

(** The effects of the interactive loop: the prompt, a send, help output. *)
Definition loop_effect (e : effect) : bool :=
  match e with
  | StdoutWrite t => str_eqb t prompt
  | SockSend _ | HelpOutput _ => true
  | _ => false
  end.

(** The state in which [emptyline] ends: nothing to repeat, or a last
    command that is not blank. *)
Definition lastcmd_ok (self : CommandLineClient) : Prop :=
  lastcmd self = [] \/ strip (lastcmd self) <> [].

(** The forwarded lines that [onecmd] keeps in [lastcmd]: those that do not
    start with an exclamation mark and are not [EOF]. *)
Definition remembered (line : str) : bool :=
  forwarded line
  && match strip line with
     | [] => false
     | c :: _ => negb (if ascii_dec c "!" then true else false)
     end
  && negb (str_eqb (strip line) (lit "EOF")).

(** * Properties *)

(** ** Byte strings *)

Lemma rstrip_snoc_space (l : str) (c : ascii) :
  isspace c = true -> rstrip (l ++ [c]) = rstrip l.
Proof.
  intros Hc. induction l as [|a l IH]; simpl.
  - now rewrite Hc.
  - now rewrite IH.
Qed.

Lemma rstrip_snoc_other (l : str) (c : ascii) :
  isspace c = false -> rstrip (l ++ [c]) = l ++ [c].
Proof.
  intros Hc. induction l as [|a l IH]; simpl.
  - now rewrite Hc.
  - rewrite IH. now destruct l.
Qed.

Lemma rstrip_LF (l : str) : rstrip (l ++ [LF]) = rstrip l.
Proof. now apply rstrip_snoc_space. Qed.

Lemma rstrip_fixed (l : str) : ends_space l = false -> rstrip l = l.
Proof.
  destruct l as [|c l'] using rev_ind; [reflexivity|].
  unfold ends_space. rewrite rev_app_distr. simpl.
  apply rstrip_snoc_other.
Qed.

(** [rstrip] removes a suffix, and white space only. *)
Lemma rstrip_suffix (l : str) :
  exists w, l = rstrip l ++ w /\ forallb isspace w = true.
Proof.
  induction l as [|c l IH] using rev_ind.
  - now exists [].
  - destruct (isspace c) eqn:Hc.
    + rewrite rstrip_snoc_space by assumption.
      destruct IH as [w [Hl Hw]]. exists (w ++ [c]). split.
      * rewrite app_assoc. now rewrite <- Hl.
      * rewrite forallb_app, Hw. simpl. now rewrite Hc.
    + rewrite rstrip_snoc_other by assumption.
      exists []. now rewrite app_nil_r.
Qed.

Lemma rstrip_idem (l : str) : rstrip (rstrip l) = rstrip l.
Proof.
  induction l as [|c l IH] using rev_ind; [reflexivity|].
  destruct (isspace c) eqn:Hc.
  - now rewrite rstrip_snoc_space.
  - rewrite rstrip_snoc_other by assumption. now apply rstrip_snoc_other.
Qed.

(** ** Receiver *)

Lemma readline_frame (l rest : str) :
  no_LF l = true -> readline (l ++ LF :: rest) = (l ++ [LF], rest).
Proof.
  induction l as [|c l IH]; simpl; intros H.
  - now destruct (ascii_dec LF LF).
  - destruct (ascii_dec c LF); [discriminate|]. now rewrite IH.
Qed.

Lemma readline_partial (l : str) : no_LF l = true -> readline l = (l, []).
Proof.
  induction l as [|c l IH]; simpl; intros H; [reflexivity|].
  destruct (ascii_dec c LF); [discriminate|]. now rewrite IH.
Qed.

Lemma wire_cons (l : str) (ls : list str) (rest : str) :
  wire (l :: ls) ++ rest = l ++ LF :: (wire ls ++ rest).
Proof. unfold wire. simpl. now rewrite <- !app_assoc. Qed.

(** With fuel for every byte and one more, the iteration yields every frame,
    in order, the unterminated one included. *)
Lemma iter_file_frames (ls : list str) (partial : str) (fuel : nat) :
  forallb no_LF ls = true -> no_LF partial = true ->
  length (wire ls ++ partial) < fuel ->
  iter_file fuel (wire ls ++ partial)
  = map (fun l => l ++ [LF]) ls ++ tail_frame partial.
Proof.
  revert fuel. induction ls as [|l ls IH]; intros fuel Hls Hp Hfuel.
  - simpl in *. destruct fuel as [|n]; [lia|]. simpl.
    rewrite readline_partial by assumption.
    destruct partial as [|c p]; [reflexivity|].
    simpl in Hfuel. destruct n as [|n]; [lia|]. reflexivity.
  - simpl in Hls. apply andb_prop in Hls. destruct Hls as [Hl Hls].
    rewrite wire_cons in *. destruct fuel as [|n]; [lia|]. simpl.
    rewrite readline_frame by assumption.
    rewrite length_app in Hfuel. simpl in Hfuel.
    rewrite IH by (assumption || lia).
    now destruct l.
Qed.

Lemma file_lines_frames (ls : list str) (partial : str) :
  forallb no_LF ls = true -> no_LF partial = true ->
  file_lines (wire ls ++ partial)
  = map (fun l => l ++ [LF]) ls ++ tail_frame partial.
Proof.
  intros. unfold file_lines. apply iter_file_frames; auto.
Qed.

Lemma on_message_displayed (m : str) : on_message m = displayed (rstrip m).
Proof. reflexivity. Qed.

Lemma on_message_frame (l : str) :
  on_message (l ++ [LF]) = displayed (rstrip l).
Proof. now rewrite on_message_displayed, rstrip_LF. Qed.

(** The whole trace of the receiver on a stream of frames. *)
Lemma Receiver_run_stream (ls : list str) (partial : str) :
  forallb no_LF ls = true -> no_LF partial = true ->
  Receiver_run (wire ls ++ partial)
  = SockMakefile
      :: map (fun l => displayed (rstrip l)) (ls ++ tail_frame partial)
      ++ [FileClose].
Proof.
  intros Hls Hp. unfold Receiver_run.
  rewrite file_lines_frames by assumption.
  rewrite !map_app, map_map. do 3 f_equal.
  apply map_ext. intros l. apply on_message_frame.
Qed.

Lemma wire_app (a b : list str) : wire (a ++ b) = wire a ++ wire b.
Proof. unfold wire. now rewrite map_app, concat_app. Qed.

(** C1, as the claim states it, fails: the frame [a ] (a space before the
    line feed) is displayed as [a]; the space is removed with the line
    feed. *)
Lemma Receiver_run_frame_not_verbatim :
  forallb no_LF [lit "a "] = true
  /\ Receiver_run (wire [lit "a "]) = [SockMakefile; displayed (lit "a"); FileClose]
  /\ Receiver_run (wire [lit "a "])
     <> SockMakefile :: map displayed [lit "a "] ++ [FileClose].
Proof. repeat split. discriminate. Qed.

(** C1, amended: for every sequence of N frames received, each ended by a
    line feed, the receiver displays exactly N messages, in arrival order,
    between opening and closing the file; the message displayed for a frame
    is the frame with all its trailing white space stripped (what [rstrip]
    removes: a suffix made of white space only), which is the frame's exact
    content when that content does not end in white space. *)
Theorem Receiver_run_frames (ls : list str) :
  forallb no_LF ls = true ->
  Receiver_run (wire ls)
  = SockMakefile :: map (fun l => displayed (rstrip l)) ls ++ [FileClose]
  /\ (forall l, In l ls ->
        exists w, l = rstrip l ++ w /\ forallb isspace w = true)
  /\ (forallb (fun l => negb (ends_space l)) ls = true ->
      Receiver_run (wire ls) = SockMakefile :: map displayed ls ++ [FileClose]).
Proof.
  intros Hls.
  assert (Hrun : Receiver_run (wire ls)
                 = SockMakefile :: map (fun l => displayed (rstrip l)) ls
                     ++ [FileClose]).
  { rewrite <- (app_nil_r (wire ls)).
    rewrite Receiver_run_stream by auto.
    simpl. now rewrite app_nil_r. }
  split; [exact Hrun|]. split.
  - intros l _. apply rstrip_suffix.
  - intros Hsp. rewrite Hrun. do 2 f_equal.
    apply map_ext_in. intros l Hl.
    rewrite forallb_forall in Hsp. specialize (Hsp l Hl).
    rewrite rstrip_fixed; [reflexivity|].
    now destruct (ends_space l).
Qed.

Lemma Receiver_run_frames_witness :
  Receiver_run (wire [lit "hi"; lit "a b "; []])
  = [SockMakefile; displayed (lit "hi"); displayed (lit "a b"); displayed [];
     FileClose].
Proof.
  exact (proj1 (Receiver_run_frames [lit "hi"; lit "a b "; []] eq_refl)).
Defined.

(** C5, as the claim states it, fails: on the stream [ab ] that the peer
    closes without a line feed, the final message displayed is [ab], not the
    buffered [ab ]; on a stream made of one space it is the empty message. *)
Lemma Receiver_run_partial_not_verbatim :
  no_LF (lit "ab ") = true
  /\ Receiver_run (lit "ab ") = [SockMakefile; displayed (lit "ab"); FileClose]
  /\ Receiver_run (lit "ab ") <> [SockMakefile; displayed (lit "ab "); FileClose]
  /\ Receiver_run (lit " ") = [SockMakefile; displayed []; FileClose].
Proof. repeat split. discriminate. Qed.

(** C5, amended: for every inbound stream that ends without a trailing line
    feed, the iteration yields the buffered partial content, whole, as one
    last message, and the receiver displays it as the final message, after
    the messages of the complete frames and before it closes the file: it
    is not skipped.  What is displayed is that content with its trailing
    white space stripped (only a suffix made of white space is removed): the
    exact content when it does not end in white space, an empty message when
    nothing but white space was buffered. *)
Theorem Receiver_run_flushes_partial (ls : list str) (partial : str) :
  forallb no_LF ls = true -> no_LF partial = true -> partial <> [] ->
  file_lines (wire ls ++ partial) = map (fun l => l ++ [LF]) ls ++ [partial]
  /\ Receiver_run (wire ls ++ partial)
     = SockMakefile :: map (fun l => displayed (rstrip l)) ls
         ++ [displayed (rstrip partial); FileClose]
  /\ (exists w, partial = rstrip partial ++ w /\ forallb isspace w = true)
  /\ (ends_space partial = false ->
      Receiver_run (wire ls ++ partial)
      = SockMakefile :: map (fun l => displayed (rstrip l)) ls
          ++ [displayed partial; FileClose])
  /\ (forallb isspace partial = true ->
      Receiver_run (wire ls ++ partial)
      = SockMakefile :: map (fun l => displayed (rstrip l)) ls
          ++ [displayed []; FileClose]).
Proof.
  intros Hls Hp Hne.
  assert (Hrun : Receiver_run (wire ls ++ partial)
                 = SockMakefile :: map (fun l => displayed (rstrip l)) ls
                     ++ [displayed (rstrip partial); FileClose]).
  { rewrite Receiver_run_stream by assumption.
    destruct partial as [|c p]; [contradiction|].
    simpl. now rewrite map_app, <- app_assoc. }
  split; [|split; [exact Hrun|split; [apply rstrip_suffix|split]]].
  - rewrite file_lines_frames by assumption. now destruct partial.
  - intros Hsp. now rewrite Hrun, rstrip_fixed.
  - intros Hsp. rewrite Hrun. do 4 f_equal.
    clear - Hsp. induction partial as [|c p IH]; [reflexivity|].
    simpl in *. apply andb_prop in Hsp. destruct Hsp as [Hc Hp].
    now rewrite IH, Hc.
Qed.

Lemma Receiver_run_flushes_partial_witness :
  Receiver_run (wire [lit "one"] ++ lit "two ")
  = [SockMakefile; displayed (lit "one"); displayed (lit "two"); FileClose].
Proof.
  refine (proj1 (proj2 (Receiver_run_flushes_partial [lit "one"]
                          (partial := lit "two ") eq_refl eq_refl _))).
  discriminate.
Defined.

(** C6: a frame made of a line feed alone, anywhere between frames, is
    displayed as an empty message, in its place: it is not skipped. *)
Theorem Receiver_run_empty_frame (before after_ : list str) (partial : str) :
  forallb no_LF before = true -> forallb no_LF after_ = true ->
  no_LF partial = true ->
  Receiver_run (wire before ++ [LF] ++ wire after_ ++ partial)
  = SockMakefile :: map (fun l => displayed (rstrip l)) before
      ++ displayed []
      :: map (fun l => displayed (rstrip l)) (after_ ++ tail_frame partial)
      ++ [FileClose].
Proof.
  intros Hb Ha Hp.
  replace (wire before ++ [LF] ++ wire after_ ++ partial)
    with (wire (before ++ [] :: after_) ++ partial).
  - rewrite Receiver_run_stream; auto.
    + rewrite <- app_assoc. simpl. now rewrite map_app, <- app_assoc.
    + rewrite forallb_app. simpl. now rewrite Hb, Ha.
  - rewrite wire_app, <- app_assoc. f_equal.
Qed.

Lemma Receiver_run_empty_frame_witness :
  Receiver_run (wire [lit "a"] ++ [LF] ++ wire [lit "b"] ++ [])
  = [SockMakefile; displayed (lit "a"); displayed []; displayed (lit "b");
     FileClose].
Proof.
  exact (Receiver_run_empty_frame [lit "a"] [lit "b"] [] eq_refl eq_refl eq_refl).
Defined.

(** ** The interactive sender *)


Lemma ends_space_rstrip (l : str) : ends_space (rstrip l) = false.
Proof.
  induction l as [|c l IH] using rev_ind; [reflexivity|].
  destruct (isspace c) eqn:Hc.
  - now rewrite rstrip_snoc_space.
  - rewrite rstrip_snoc_other by assumption.
    unfold ends_space. now rewrite rev_app_distr.
Qed.

Lemma ends_space_strip (l : str) : ends_space (strip l) = false.
Proof. apply ends_space_rstrip. Qed.

Lemma ends_LF_space (l : str) : ends_space l = false -> ends_LF l = false.
Proof.
  unfold ends_space, ends_LF. destruct (rev l) as [|c r]; [reflexivity|].
  destruct (ascii_dec c LF) as [->|]; [discriminate|reflexivity].
Qed.



(** A blank line is [emptyline]: the last command again, if any. *)
Lemma onecmd_blank (d : nat) (self : CommandLineClient) (line : str) :
  strip line = [] ->
  onecmd (S d) self line
  = match lastcmd self with
    | [] => Some (self, [], false)
    | last => onecmd d self last
    end.
Proof.
  intros Hs. cbn [onecmd]. unfold parseline. now rewrite Hs.
Qed.

(** One iteration of the loop on a line of input. *)
Lemma cmdloop_step (depth n : nat) (self : CommandLineClient)
    (line : str) (rest : list str) (self' : CommandLineClient)
    (t : list effect) :
  onecmd depth self line = Some (self', t, false) ->
  cmdloop depth (S n) self (line :: rest)
  = after (StdoutWrite prompt :: t) (cmdloop depth n self' rest).
Proof. intros H. simpl. unfold precmd, postcmd. now rewrite H. Qed.

(** Whatever [onecmd] sends is a stripped line, not empty, followed by a
    line feed. *)
Lemma onecmd_sends_stripped (d : nat) :
  forall (self : CommandLineClient) (line : str) (r : reply),
    onecmd d self line = Some r ->
    forall data, In data (sent (did r)) ->
      exists x, data = strip x ++ [LF] /\ strip x <> [].
Proof.
  induction d as [|d IH]; intros self line r; [discriminate|].
  cbn [onecmd]. unfold parseline.
  destruct (strip line) as [|c rest] eqn:Hs.
  - destruct (lastcmd self) as [|a l] eqn:Hl.
    + intros [= <-] data []. 
    + apply IH.
  - assert (Hdef : forall self0 r0, Some (default self0 (c :: rest)) = Some r0 ->
              forall data, In data (sent (did r0)) ->
              exists x, data = strip x ++ [LF] /\ strip x <> []).
    { intros self0 r0 [= <-] data [<-|[]]. exists line. now rewrite Hs. }
    destruct (ascii_dec c "?") as [->|Hq].
    + intros [= <-] data [].
    + destruct (ascii_dec c "!") as [->|Hbang]; [apply Hdef|].
      cbv beta iota zeta.
      destruct (firstn (ident_len (c :: rest)) (c :: rest)) as [|a w];
        [apply Hdef|].
      destruct (getattr_do (a :: w)) as [[]|]; [|apply Hdef].
      intros [= <-] data [].
Qed.




(** C3, as the claim states it, fails: [default] on a line that already
    ends in a line feed sends it with a second one. *)
Lemma default_doubles_newline :
  did (default new_client (lit "a" ++ [LF])) = [SockSend (lit "a" ++ [LF; LF])]
  /\ sent (did (default new_client (lit "a" ++ [LF])))
     <> [spec_Send_bytes (lit "a" ++ [LF])].
Proof. split; [reflexivity|discriminate]. Qed.

(** C3, amended: for every string passed to [default], the bytes handed to
    the socket, in one [send] call, are the input followed by one line feed,
    appended whether or not the input ends in one; this is the input with
    exactly one terminator when the input does not end in a line feed, as is
    every line the interpreter passes: whatever a command sends is a line
    without trailing line feed, then one line feed. *)
Theorem default_appends_newline (self : CommandLineClient) (line : str) :
  default self line = (self, [SockSend (line ++ [LF])], false)
  /\ (ends_LF line = false ->
      sent (did (default self line)) = [spec_Send_bytes line])
  /\ (forall d input r, onecmd d self input = Some r ->
      forall data, In data (sent (did r)) ->
        exists s, data = s ++ [LF] /\ ends_LF s = false).
Proof.
  split; [reflexivity|]. split.
  - intros H. unfold spec_Send_bytes. now rewrite H.
  - intros d input r Hr data Hin.
    destruct (onecmd_sends_stripped d self input Hr data Hin) as [x [-> _]].
    exists (strip x). split; [reflexivity|].
    apply ends_LF_space, ends_space_strip.
Qed.

Lemma default_appends_newline_witness :
  sent (did (default new_client (lit "bid 5"))) = [spec_Send_bytes (lit "bid 5")].
Proof.
  exact (proj1 (proj2 (default_appends_newline new_client (lit "bid 5"))) eq_refl).
Defined.

Lemma onecmd_EOF (d : nat) (self : CommandLineClient) :
  onecmd (S d) self (lit "EOF")
  = Some ({| lastcmd := [] |}, [SockSend (lit "EOF" ++ [LF])], false).
Proof. reflexivity. Qed.

Lemma cmdloop_eof (d n : nat) :
  forall self,
    cmdloop (S d) n self []
    = Running (concat (repeat [StdoutWrite prompt; SockSend (lit "EOF" ++ [LF])] n)).
Proof.
  induction n as [|n IH]; intros self; [reflexivity|].
  cbn [cmdloop raw_input]. unfold precmd, postcmd.
  rewrite onecmd_EOF. now rewrite IH.
Qed.

(** C7 does not hold of the code.  At the end of the input [raw_input]
    raises [EOFError], the loop takes the line to be [EOF], no [do_EOF]
    exists, so [default] sends [EOF] to the peer and returns no stop flag:
    however long the loop is observed it has not returned, and it has sent
    one [EOF] line per iteration.  So [main] never finishes either, whatever
    its arguments; the receiver was started as a daemon thread and is not
    what keeps the process running. *)
Theorem cmdloop_end_of_input_never_returns (d n : nat)
    (self : CommandLineClient) :
  cmdloop (S d) n self []
  = Running (concat (repeat [StdoutWrite prompt; SockSend (lit "EOF" ++ [LF])] n))
  /\ (forall py_int argv t, main py_int (S d) n argv [] <> Finished t)
  /\ (forall py_int,
      main py_int (S d) n [lit "CommandLineClient.py"] []
      = Running
          ([ SocketCreate;
             SockConnect (lit "127.0.0.1") 1300;
             StdoutWrite (lit "==== Connected to 127.0.0.1:1300 ====" ++ [LF]);
             ThreadStart true ]
           ++ concat (repeat [StdoutWrite prompt; SockSend (lit "EOF" ++ [LF])] n))).
Proof.
  split; [apply cmdloop_eof|]. split.
  - intros py_int argv t. unfold main.
    destruct (if 2 <? length argv then py_int (nth 2 argv []) else Some 1300%Z)
      as [port|]; [|discriminate].
    destruct (port_ok port); [|discriminate].
    rewrite cmdloop_eof. discriminate.
  - intros py_int. unfold main. cbn [length Nat.ltb Nat.leb].
    change (port_ok 1300) with true. cbv iota.
    now rewrite cmdloop_eof.
Qed.

(** ** [main] *)

Lemma connects_app (a b : list effect) :
  connects (a ++ b) = connects a ++ connects b.
Proof. apply flat_map_app. Qed.

Lemma connects_local (t : list effect) :
  forallb send_or_help t = true -> connects t = [].
Proof.
  induction t as [|e t IH]; [reflexivity|].
  simpl. intros H. apply andb_prop in H. destruct H as [He Ht].
  rewrite IH by assumption. now destruct e.
Qed.

Lemma onecmd_effects (d : nat) :
  forall (self : CommandLineClient) (line : str) (r : reply),
    onecmd d self line = Some r -> forallb send_or_help (did r) = true.
Proof.
  induction d as [|d IH]; intros self line r; [discriminate|].
  cbn [onecmd]. unfold parseline.
  destruct (strip line) as [|c rest].
  - destruct (lastcmd self) as [|a l]; [now intros [= <-]|apply IH].
  - destruct (ascii_dec c "?") as [->|Hq]; [now intros [= <-]|].
    destruct (ascii_dec c "!") as [->|Hbang]; [now intros [= <-]|].
    cbv beta iota zeta.
    destruct (firstn (ident_len (c :: rest)) (c :: rest)) as [|a w];
      [now intros [= <-]|].
    destruct (getattr_do (a :: w)) as [[]|]; now intros [= <-].
Qed.

Lemma trace_of_after (t : list effect) (o : outcome) :
  trace_of (after t o) = t ++ trace_of o.
Proof. now destruct o. Qed.

(** The interactive loop never connects. *)
Lemma cmdloop_no_connect (depth n : nat) :
  forall self stdin, connects (trace_of (cmdloop depth n self stdin)) = [].
Proof.
  induction n as [|n IH]; intros self stdin; [reflexivity|].
  cbn [cmdloop]. destruct (raw_input stdin) as [input rest].
  unfold precmd, postcmd.
  destruct (onecmd depth self _) as [[[self' t] stop]|] eqn:Hc; [|reflexivity].
  apply onecmd_effects in Hc. cbn [did fst snd] in Hc.
  destruct stop.
  - cbn [trace_of connects flat_map app]. now apply connects_local.
  - rewrite trace_of_after, connects_app, IH, app_nil_r.
    cbn [connects flat_map app]. now apply connects_local.
Qed.

Lemma argv_present (argv : list str) (i : nat) (x : str) :
  nth_error argv i = Some x -> (i <? length argv) = true /\ nth i argv [] = x.
Proof.
  intros H. split.
  - apply Nat.ltb_lt, nth_error_Some. congruence.
  - now apply nth_error_nth.
Qed.

Lemma argv_absent (argv : list str) (i : nat) :
  length argv <= i -> (i <? length argv) = false.
Proof. intros H. now apply Nat.ltb_ge. Qed.

(** What [main] does once host and port are known. *)
Lemma main_connects_to (py_int : str -> option Z) (depth fuel : nat)
    (argv stdin : list str) (port : Z) :
  (if 2 <? length argv then py_int (nth 2 argv []) else Some 1300%Z) = Some port ->
  connects (trace_of (main py_int depth fuel argv stdin))
  = [(if 1 <? length argv then nth 1 argv [] else lit "127.0.0.1", port)].
Proof.
  intros H. unfold main. rewrite H.
  destruct (port_ok port); [|reflexivity].
  rewrite trace_of_after, connects_app, cmdloop_no_connect.
  reflexivity.
Qed.

(** C4: without a first argument [main] connects to host [127.0.0.1], and
    then to port [1300]; with a first argument and no second it connects to
    the given host and port [1300]; with both, to the given host and the
    integer value [int] gives for the port argument.  One connection is
    attempted, to that target. *)
Theorem main_host_port (py_int : str -> option Z) (depth fuel : nat)
    (argv stdin : list str) :
  (length argv <= 1 ->
   connects (trace_of (main py_int depth fuel argv stdin))
   = [(lit "127.0.0.1", 1300%Z)])
  /\ (forall host, nth_error argv 1 = Some host -> length argv <= 2 ->
      connects (trace_of (main py_int depth fuel argv stdin))
      = [(host, 1300%Z)])
  /\ (forall host arg port,
      nth_error argv 1 = Some host -> nth_error argv 2 = Some arg ->
      py_int arg = Some port ->
      connects (trace_of (main py_int depth fuel argv stdin)) = [(host, port)]).
Proof.
  repeat split.
  - intros H. rewrite (@main_connects_to _ _ _ _ _ 1300%Z).
    + now rewrite argv_absent.
    + now rewrite argv_absent by lia.
  - intros host H1 H2. apply argv_present in H1. destruct H1 as [Hlt <-].
    rewrite (@main_connects_to _ _ _ _ _ 1300%Z).
    + now rewrite Hlt.
    + now rewrite argv_absent.
  - intros host arg port H1 H2 Hp.
    apply argv_present in H1. destruct H1 as [Hlt1 <-].
    apply argv_present in H2. destruct H2 as [Hlt2 <-].
    rewrite (@main_connects_to _ _ _ _ _ port).
    + now rewrite Hlt1.
    + now rewrite Hlt2.
Qed.

Lemma main_host_port_witness :
  connects (trace_of (main decimal_int 2 3
                        [lit "client"; lit "jack.example"; lit "8080"]
                        [lit "hello"]))
  = [(lit "jack.example", 8080%Z)].
Proof.
  exact (proj2 (proj2 (main_host_port decimal_int 2 3
                         [lit "client"; lit "jack.example"; lit "8080"]
                         [lit "hello"]))
           (lit "jack.example") (lit "8080") 8080%Z eq_refl eq_refl eq_refl).
Defined.

(** C10: when a second argument is present and [int] rejects it with a
    [ValueError], [main] raises that error having done nothing: no socket
    was created, no connection attempted, nothing printed. *)
Theorem main_bad_port (py_int : str -> option Z) (depth fuel : nat)
    (argv stdin : list str) (arg : str) :
  nth_error argv 2 = Some arg -> py_int arg = None ->
  main py_int depth fuel argv stdin = Raised ValueError [].
Proof.
  intros H Hp. apply argv_present in H. destruct H as [Hlt <-].
  unfold main. now rewrite Hlt, Hp.
Qed.

Lemma main_bad_port_witness :
  main decimal_int 2 3 [lit "client"; lit "jack.example"; lit "80a"] [lit "hello"]
  = Raised ValueError [].
Proof.
  exact (@main_bad_port decimal_int 2 3
           [lit "client"; lit "jack.example"; lit "80a"] [lit "hello"]
           (lit "80a") eq_refl eq_refl).
Defined.

(** ** The URL table *)

Lemma ustr_eqb_eq (a b : ustr) : ustr_eqb a b = true <-> a = b.
Proof.
  unfold ustr_eqb. destruct (list_eq_dec N.eq_dec a b); split; intros;
    congruence.
Qed.

Lemma ustr_eqb_neq (a b : ustr) : a <> b -> ustr_eqb a b = false.
Proof.
  intros H. unfold ustr_eqb. now destruct (list_eq_dec N.eq_dec a b).
Qed.

Lemma try_down_none (A : Type) (f : nat -> option A) (n : nat) :
  (forall k, 0 < k <= n -> f k = None) -> try_down n f = None.
Proof.
  induction n as [|n IH]; intros H; [reflexivity|].
  simpl. rewrite H by lia. apply IH. intros k Hk. apply H. lia.
Qed.

(** When every shorter repetition fails, the greedy one decides. *)
Lemma try_down_top (A : Type) (f : nat -> option A) (n : nat) :
  (forall k, 0 < k < n -> f k = None) ->
  try_down n f = match n with O => None | S _ => f n end.
Proof.
  destruct n as [|n]; intros H; [reflexivity|].
  simpl. destruct (f (S n)); [reflexivity|].
  apply try_down_none. intros k Hk. apply H. lia.
Qed.

Section Resolver.

Variable is_digit : uchar -> bool.

(** The slash is not a digit. *)
Hypothesis slash_not_digit : is_digit 47%N = false.

Lemma digit_not_slash (c : uchar) : is_digit c = true -> N.eqb 47 c = false.
Proof.
  intros Hc. apply N.eqb_neq. intros <-. congruence.
Qed.

Lemma search_unanchored (re : regex) (s : ustr) :
  search_from is_digit (Bol :: re) false s = None.
Proof. induction s as [|c s IH]; simpl; [reflexivity|exact IH]. Qed.

(** A pattern that starts with [^] matches at the start or not at all. *)
Lemma search_anchored (re : regex) (s : ustr) :
  re_search is_digit (Bol :: re) s = match_here is_digit re true s [].
Proof.
  unfold re_search. destruct s as [|c s]; simpl.
  - now destruct (match_here is_digit re true [] []).
  - destruct (match_here is_digit re true (c :: s) []); [reflexivity|].
    apply search_unanchored.
Qed.

Lemma digit_run_inside (s : ustr) :
  forall k, k < digit_run is_digit s ->
  exists c t, skipn k s = c :: t /\ is_digit c = true.
Proof.
  induction s as [|a s IH]; intros k Hk; simpl in Hk; [lia|].
  destruct (is_digit a) eqn:Ha; [|lia].
  destruct k as [|k].
  - now exists a, s.
  - simpl. apply IH. lia.
Qed.

Lemma digit_run_split (s : ustr) :
  forallb is_digit (firstn (digit_run is_digit s) s) = true.
Proof.
  induction s as [|a s IH]; [reflexivity|].
  simpl. destruct (is_digit a) eqn:Ha; [|reflexivity].
  simpl. now rewrite Ha.
Qed.

Lemma digit_run_digits (ds rest : ustr) :
  forallb is_digit ds = true ->
  digit_run is_digit (ds ++ 47%N :: rest) = length ds.
Proof.
  induction ds as [|d ds IH]; simpl; intros H.
  - now rewrite slash_not_digit.
  - apply andb_prop in H. destruct H as [Hd Hds].
    now rewrite Hd, IH.
Qed.

Lemma leading_segment_digits (ds rest : ustr) :
  forallb is_digit ds = true -> leading_segment (ds ++ 47%N :: rest) = ds.
Proof.
  induction ds as [|d ds IH]; simpl; intros H; [reflexivity|].
  apply andb_prop in H. destruct H as [Hd Hds].
  rewrite N.eqb_sym, digit_not_slash by assumption. now rewrite IH.
Qed.

Lemma route_search (name : string) (text s : ustr) :
  re_search is_digit (route name text) s
  = match digit_run is_digit s with
    | O => None
    | S _ =>
        match strip_prefix (47%N :: text) (skipn (digit_run is_digit s) s) with
        | Some s' =>
            if ustr_eqb s' [] || ustr_eqb s' [10%N]
            then Some [(name, firstn (digit_run is_digit s) s)] else None
        | None => None
        end
    end.
Proof.
  unfold route. rewrite search_anchored. cbn [match_here].
  rewrite try_down_top.
  - destruct (digit_run is_digit s); [reflexivity|].
    destruct (strip_prefix _ _) as [s'|]; [|reflexivity].
    now destruct (ustr_eqb s' [] || ustr_eqb s' [10%N]).
  - intros k Hk.
    destruct (digit_run_inside s (k := k)) as [c [t [-> Hc]]]; [lia|].
    cbn [strip_prefix]. now rewrite digit_not_slash.
Qed.

Lemma route_search_digits (name : string) (text ds rest : ustr) :
  ds <> [] -> forallb is_digit ds = true ->
  re_search is_digit (route name text) (ds ++ 47%N :: rest)
  = match strip_prefix text rest with
    | Some s' =>
        if ustr_eqb s' [] || ustr_eqb s' [10%N]
        then Some [(name, ds)] else None
    | None => None
    end.
Proof.
  intros Hne Hds. rewrite route_search, digit_run_digits by assumption.
  rewrite skipn_app, firstn_app, Nat.sub_diag, skipn_all, firstn_all.
  destruct ds as [|d ds]; [contradiction|].
  cbn [length skipn firstn app strip_prefix]. rewrite N.eqb_refl.
  now rewrite app_nil_r.
Qed.

Lemma route_search_inv (name : string) (text s : ustr) (g : groupdict) :
  re_search is_digit (route name text) s = Some g ->
  exists ds rest,
    s = ds ++ 47%N :: rest /\ ds <> [] /\ forallb is_digit ds = true.
Proof.
  rewrite route_search.
  destruct (digit_run is_digit s) as [|n] eqn:Hn; [discriminate|].
  rewrite <- Hn.
  destruct (skipn (digit_run is_digit s) s) as [|c rest] eqn:Hsk;
    [discriminate|].
  cbn [strip_prefix]. destruct (N.eqb 47 c) eqn:Hc; [|discriminate].
  apply N.eqb_eq in Hc. subst c. intros _.
  exists (firstn (digit_run is_digit s) s), rest. repeat split.
  - pose proof (firstn_skipn (digit_run is_digit s) s) as E.
    rewrite Hsk in E. symmetry. exact E.
  - intros Hnil. apply (f_equal (@length _)) in Hnil.
    rewrite length_firstn in Hnil.
    assert (length (skipn (digit_run is_digit s) s) <> 0)
      by (rewrite Hsk; discriminate).
    rewrite length_skipn in H. simpl in Hnil. lia.
  - apply digit_run_split.
Qed.

Lemma index_search (s : ustr) :
  re_search is_digit [Bol; Eol] s
  = if ustr_eqb s [] || ustr_eqb s [10%N] then Some [] else None.
Proof. now rewrite search_anchored. Qed.

Lemma index_search_digits (ds rest : ustr) :
  ds <> [] -> re_search is_digit [Bol; Eol] (ds ++ 47%N :: rest) = None.
Proof.
  intros Hne. rewrite index_search.
  rewrite !ustr_eqb_neq; [reflexivity| |];
    destruct ds as [|d [|d' ds]]; (contradiction || discriminate).
Qed.

Lemma route_hit (name : string) (text ds rest : ustr) :
  ds <> [] -> forallb is_digit ds = true -> ends_here text rest = true ->
  re_search is_digit (route name text) (ds ++ 47%N :: rest)
  = Some [(name, ds)].
Proof.
  intros Hne Hds He. rewrite route_search_digits by assumption.
  unfold ends_here in He. destruct (strip_prefix text rest); [|discriminate].
  now rewrite He.
Qed.

Lemma route_miss (name : string) (text ds rest : ustr) :
  ds <> [] -> forallb is_digit ds = true -> ends_here text rest = false ->
  re_search is_digit (route name text) (ds ++ 47%N :: rest) = None.
Proof.
  intros Hne Hds He. rewrite route_search_digits by assumption.
  unfold ends_here in He. destruct (strip_prefix text rest); [|reflexivity].
  now rewrite He.
Qed.

Lemma draft_routes_shape (p : url_pattern) :
  In p draft_routes -> exists text, pattern p = route "draft_id" text.
Proof.
  unfold draft_routes, urlpatterns. cbn [tl In].
  intros [<-|[<-|[<-|[<-|[<-|[<-|[]]]]]]]; eexists; reflexivity.
Qed.

Lemma digits_have_no_nondigit (ds : ustr) :
  forallb is_digit ds = true -> has_nondigit is_digit ds = false.
Proof.
  induction ds as [|d ds IH]; [reflexivity|].
  simpl. intros H. apply andb_prop in H. destruct H as [Hd Hds].
  now rewrite Hd, IH.
Qed.

Ltac walk_table :=
  unfold urlpatterns, url; cbn [resolve pattern callback];
  rewrite index_search_digits by assumption;
  repeat match goal with
  | |- context [re_search is_digit [Bol; NamedDigits ?n; Chars ?t; Eol] _] =>
      let t' := eval cbv in t in
      match t' with
      | 47%N :: ?r => change [Bol; NamedDigits n; Chars t; Eol] with (route n r)
      end
  end;
  repeat first
    [ rewrite (@route_miss "draft_id") by (assumption || reflexivity)
    | rewrite (@route_hit "draft_id") by (assumption || reflexivity) ];
  reflexivity.

(** C9: on a path made of digits, a slash and one of the five action names
    the table dispatches to the view of that name with [draft_id] bound to
    the digits; on digits and a slash, to [draft]; on the empty path, to
    [index]; and a path with a character that is not a digit in its first
    segment matches none of the routes of a draft.  A digit is a character
    of the class [\d], which the slash is not in. *)
Theorem urlpatterns_dispatch :
  (forall ds, ds <> [] -> forallb is_digit ds = true ->
     resolve is_digit urlpatterns (ds ++ ulit "/register")
     = Some (register, [("draft_id"%string, ds)])
     /\ resolve is_digit urlpatterns (ds ++ ulit "/get_manager_updates")
        = Some (get_manager_updates, [("draft_id"%string, ds)])
     /\ resolve is_digit urlpatterns (ds ++ ulit "/get_player_updates")
        = Some (get_player_updates, [("draft_id"%string, ds)])
     /\ resolve is_digit urlpatterns (ds ++ ulit "/get_team")
        = Some (get_team, [("draft_id"%string, ds)])
     /\ resolve is_digit urlpatterns (ds ++ ulit "/place_bid")
        = Some (place_bid, [("draft_id"%string, ds)])
     /\ resolve is_digit urlpatterns (ds ++ ulit "/")
        = Some (draft, [("draft_id"%string, ds)]))
  /\ resolve is_digit urlpatterns [] = Some (index, [])
  /\ (forall path, has_nondigit is_digit (leading_segment path) = true ->
      forall p, In p draft_routes ->
        re_search is_digit (pattern p) path = None).
Proof.
  split; [|split].
  - intros ds Hne Hds. repeat split.
    + change (ulit "/register") with (47%N :: ulit "register"). walk_table.
    + change (ulit "/get_manager_updates")
        with (47%N :: ulit "get_manager_updates"). walk_table.
    + change (ulit "/get_player_updates")
        with (47%N :: ulit "get_player_updates"). walk_table.
    + change (ulit "/get_team") with (47%N :: ulit "get_team"). walk_table.
    + change (ulit "/place_bid") with (47%N :: ulit "place_bid"). walk_table.
    + change (ulit "/") with (47%N :: ulit ""). walk_table.
  - reflexivity.
  - intros path Hseg p Hp.
    destruct (draft_routes_shape Hp) as [text ->].
    destruct (re_search is_digit (route "draft_id" text) path) as [g|] eqn:E;
      [exfalso|reflexivity].
    apply route_search_inv in E. destruct E as [ds [rest [-> [_ Hds]]]].
    rewrite leading_segment_digits in Hseg by assumption.
    rewrite digits_have_no_nondigit in Hseg by assumption. discriminate.
Qed.

End Resolver.

Lemma urlpatterns_dispatch_witness :
  resolve ascii_digit urlpatterns (ulit "42" ++ ulit "/place_bid")
  = Some (place_bid, [("draft_id"%string, ulit "42")]).
Proof.
  refine (proj1 (proj2 (proj2 (proj2 (proj2
            (proj1 (@urlpatterns_dispatch ascii_digit eq_refl)
               (ulit "42") _ eq_refl)))))).
  discriminate.
Defined.

(** * Further properties *)

(** ** Receiver: framing of an arbitrary stream *)

Lemma no_LF_app (a b : str) : no_LF (a ++ b) = no_LF a && no_LF b.
Proof.
  induction a as [|c a IH]; [reflexivity|].
  simpl. now destruct (ascii_dec c LF).
Qed.

Lemma no_LF_count (l : str) :
  no_LF l = true -> count_occ ascii_dec l LF = 0.
Proof.
  induction l as [|c l IH]; [reflexivity|].
  simpl. destruct (ascii_dec c LF); [discriminate|exact IH].
Qed.

Lemma count_wire (ls : list str) :
  forallb no_LF ls = true -> count_occ ascii_dec (wire ls) LF = length ls.
Proof.
  induction ls as [|l ls IH]; [reflexivity|].
  simpl. intros H. apply andb_prop in H. destruct H as [Hl Hls].
  rewrite <- (app_nil_r (wire (l :: ls))), wire_cons, app_nil_r.
  rewrite count_occ_app, no_LF_count by assumption.
  simpl. destruct (ascii_dec LF LF); [|contradiction].
  now rewrite IH.
Qed.

Lemma ends_LF_snoc (x : str) : ends_LF (x ++ [LF]) = true.
Proof.
  unfold ends_LF. rewrite rev_app_distr. simpl.
  now destruct (ascii_dec LF LF).
Qed.

Lemma ends_LF_wire (ls : list str) : ls <> [] -> ends_LF (wire ls) = true.
Proof.
  destruct ls as [|l ls] using rev_ind; [contradiction|]. intros _.
  rewrite wire_app. unfold wire at 2. simpl.
  rewrite app_nil_r, app_assoc. apply ends_LF_snoc.
Qed.

Lemma ends_LF_partial (x p : str) :
  p <> [] -> no_LF p = true -> ends_LF (x ++ p) = false.
Proof.
  destruct p as [|c p] using rev_ind; [contradiction|]. intros _ H.
  rewrite no_LF_app in H. apply andb_prop in H. destruct H as [_ Hc].
  simpl in Hc. unfold ends_LF. rewrite !rev_app_distr. simpl.
  now destruct (ascii_dec c LF).
Qed.

(** Every stream is a sequence of complete frames followed by a tail
    without line feed. *)
Lemma stream_frames (s : str) :
  exists ls p,
    s = wire ls ++ p /\ forallb no_LF ls = true /\ no_LF p = true.
Proof.
  induction s as [|c s IH].
  - now exists [], [].
  - destruct IH as [ls [p [-> [Hls Hp]]]].
    destruct (ascii_dec c LF) as [->|Hc].
    + exists ([] :: ls), p. now rewrite wire_cons.
    + destruct ls as [|l ls].
      * exists [], (c :: p). simpl.
        destruct (ascii_dec c LF); [contradiction|]. now rewrite Hp.
      * exists ((c :: l) :: ls), p. rewrite !wire_cons. simpl in *.
        destruct (ascii_dec c LF); [contradiction|]. now rewrite Hls.
Qed.

Lemma no_LF_rstrip (l : str) : no_LF l = true -> no_LF (rstrip l) = true.
Proof.
  intros H. destruct (rstrip_suffix l) as [w [E _]].
  rewrite E, no_LF_app in H. now apply andb_prop in H.
Qed.

Lemma concat_tail_frame (p : str) : concat (tail_frame p) = p.
Proof. destruct p; [reflexivity|]. simpl. now rewrite app_nil_r. Qed.

(** X1: the iteration over the socket's file cuts the stream into lines
    and nothing else: put end to end, the messages are the stream, byte for
    byte. *)
Theorem file_lines_concat (s : str) : concat (file_lines s) = s.
Proof.
  destruct (stream_frames s) as [ls [p [-> [Hls Hp]]]].
  rewrite file_lines_frames by assumption.
  now rewrite concat_app, concat_tail_frame.
Qed.

(** X2: on any stream the receiver opens the file once, first, then
    displays messages and does nothing else, and closes the file once, last;
    it displays one message per line feed received, and one more when the
    stream ends on bytes that no line feed follows. *)
Theorem Receiver_run_count (s : str) :
  exists ms,
    Receiver_run s = SockMakefile :: map displayed ms ++ [FileClose]
    /\ length ms
       = count_occ ascii_dec s LF
         + match s with
           | [] => 0
           | _ => if ends_LF s then 0 else 1
           end.
Proof.
  destruct (stream_frames s) as [ls [p [-> [Hls Hp]]]].
  exists (map rstrip (ls ++ tail_frame p)). split.
  - rewrite Receiver_run_stream by assumption. now rewrite map_map.
  - rewrite length_map, length_app.
    rewrite count_occ_app, count_wire, (no_LF_count p) by assumption.
    destruct p as [|c p].
    + rewrite app_nil_r. destruct ls as [|l ls]; [reflexivity|].
      rewrite ends_LF_wire by discriminate.
      destruct (wire (l :: ls)) eqn:E; simpl; lia.
    + rewrite ends_LF_partial by (assumption || discriminate).
      destruct (wire ls ++ c :: p) eqn:E; [now destruct (wire ls)|].
      simpl. lia.
Qed.

(** X3: whatever the stream, each message is displayed on one line of
    output: the text written is the marker, a message with no line feed in
    it and no white space at its end, and one line feed. *)
Theorem Receiver_run_one_line_each (s : str) :
  exists ms,
    Receiver_run s = SockMakefile :: map displayed ms ++ [FileClose]
    /\ forallb no_LF ms = true
    /\ forallb (fun m => negb (ends_space m)) ms = true.
Proof.
  destruct (stream_frames s) as [ls [p [-> [Hls Hp]]]].
  exists (map rstrip (ls ++ tail_frame p)). split; [|split].
  - rewrite Receiver_run_stream by assumption. now rewrite map_map.
  - apply forallb_forall. intros m Hm.
    apply in_map_iff in Hm. destruct Hm as [l [<- Hl]].
    apply no_LF_rstrip. apply in_app_or in Hl. destruct Hl as [Hl|Hl].
    + rewrite forallb_forall in Hls. now apply Hls.
    + destruct p; [contradiction|]. now destruct Hl as [<-|[]].
  - apply forallb_forall. intros m Hm.
    apply in_map_iff in Hm. destruct Hm as [l [<- _]].
    now rewrite ends_space_rstrip.
Qed.

(** X4: frames do not depend on what comes after them: when a first part of
    the stream is empty or ends on a line feed, the messages of the whole
    stream are the messages of that part followed by those of the rest. *)
Theorem Receiver_run_app (a b : str) :
  a = [] \/ ends_LF a = true ->
  file_lines (a ++ b) = file_lines a ++ file_lines b
  /\ Receiver_run (a ++ b)
     = SockMakefile
         :: (map on_message (file_lines a) ++ map on_message (file_lines b))
         ++ [FileClose].
Proof.
  intros Ha.
  assert (H : file_lines (a ++ b) = file_lines a ++ file_lines b).
  { destruct (stream_frames a) as [la [pa [-> [Hla Hpa]]]].
    destruct (stream_frames b) as [lb [pb [-> [Hlb Hpb]]]].
    assert (pa = []) as ->.
    { destruct pa as [|c pa]; [reflexivity|].
      destruct Ha as [Ha|Ha].
      - now destruct (wire la).
      - rewrite ends_LF_partial in Ha by (assumption || discriminate).
        discriminate. }
    rewrite !app_nil_r, app_assoc, <- wire_app.
    rewrite file_lines_frames
      by (assumption || (rewrite forallb_app; now rewrite Hla, Hlb)).
    rewrite <- (app_nil_r (wire la)).
    rewrite !file_lines_frames by (assumption || reflexivity).
    simpl. now rewrite app_nil_r, map_app, app_assoc. }
  split; [exact H|].
  unfold Receiver_run. now rewrite H, map_app.
Qed.

Lemma Receiver_run_app_witness :
  file_lines (lit "one" ++ [LF] ++ lit "tw" ++ [LF] ++ lit "o")
  = file_lines (lit "one" ++ [LF]) ++ file_lines (lit "tw" ++ [LF] ++ lit "o").
Proof.
  exact (proj1 (@Receiver_run_app (lit "one" ++ [LF])
                  (lit "tw" ++ [LF] ++ lit "o") (or_intror eq_refl))).
Defined.

(** A port that [int] accepts and [connect] refuses: the socket exists, no
    banner was printed, no thread started. *)
Example main_port_out_of_range :
  main decimal_int 2 3 [lit "client"; lit "jack.example"; lit "70000"] []
  = Raised OverflowError [SocketCreate; SockConnect (lit "jack.example") 70000]
  /\ main decimal_int 2 3 [lit "client"; lit "jack.example"; lit "-1"] []
     = Raised OverflowError [SocketCreate; SockConnect (lit "jack.example") (-1)].
Proof. split; reflexivity. Qed.

(** ** The interactive sender: the whole loop *)

Lemma lstrip_head (s : str) (c : ascii) (t : str) :
  lstrip s = c :: t -> isspace c = false.
Proof.
  induction s as [|a s IH]; simpl; [discriminate|].
  destruct (isspace a) eqn:Ha; [exact IH|].
  now intros [= <- _].
Qed.

Lemma rstrip_head (c : ascii) (t : str) :
  isspace c = false -> exists t', rstrip (c :: t) = c :: t'.
Proof.
  intros Hc. simpl. rewrite Hc. destruct (rstrip t); eexists; reflexivity.
Qed.

Lemma strip_head (s : str) (c : ascii) (t : str) :
  strip s = c :: t -> isspace c = false.
Proof.
  unfold strip. destruct (lstrip s) as [|a l] eqn:E; [discriminate|].
  pose proof (@lstrip_head s _ _ E) as Ha.
  destruct (@rstrip_head a l Ha) as [t' ->]. now intros [= <- _].
Qed.

Lemma strip_idem (s : str) : strip (strip s) = strip s.
Proof.
  destruct (strip s) as [|c t] eqn:E; [reflexivity|].
  pose proof (@strip_head s _ _ E) as Hc.
  unfold strip at 1. cbn [lstrip]. rewrite Hc, <- E.
  apply rstrip_idem.
Qed.

Lemma strip_help (rest : str) : strip (lit "help " ++ rest) <> [].
Proof.
  unfold strip. cbn [lit list_ascii_of_string app lstrip].
  change (isspace "h") with false. cbv iota.
  destruct (@rstrip_head "h" (lit "elp " ++ rest) eq_refl) as [t' E].
  cbn [lit list_ascii_of_string app] in E. rewrite E. discriminate.
Qed.

Lemma no_LF_lstrip (s : str) : no_LF s = true -> no_LF (lstrip s) = true.
Proof.
  induction s as [|c s IH]; [reflexivity|].
  intros H. simpl. destruct (isspace c); [|exact H].
  apply IH. simpl in H. now destruct (ascii_dec c LF).
Qed.

Lemma no_LF_strip (s : str) : no_LF s = true -> no_LF (strip s) = true.
Proof. intros H. now apply no_LF_rstrip, no_LF_lstrip. Qed.

Lemma after_app (a b : list effect) (o : outcome) :
  after a (after b o) = after (a ++ b) o.
Proof. destruct o; simpl; now rewrite app_assoc. Qed.

(** A line that is not blank runs one command, with one effect; what the
    interpreter remembers afterwards is what it remembered before, nothing,
    the stripped line, or the help command a question mark stands for. *)
Lemma onecmd_nonblank (d : nat) (self : CommandLineClient) (line : str) :
  strip line <> [] ->
  exists self' e,
    onecmd (S d) self line = Some (self', [e], false)
    /\ (e = SockSend (strip line ++ [LF]) \/ exists a, e = HelpOutput a)
    /\ (lastcmd self' = lastcmd self \/ lastcmd self' = []
        \/ lastcmd self' = strip line
        \/ lastcmd self' = lit "help " ++ tl (strip line)).
Proof.
  cbn [onecmd]. unfold parseline.
  destruct (strip line) as [|c rest] eqn:Hs; [congruence|]. intros _.
  destruct (ascii_dec c "?") as [->|Hq].
  - do 2 eexists. split; [reflexivity|]. split; [right; eexists; reflexivity|].
    do 3 right. reflexivity.
  - destruct (ascii_dec c "!") as [->|Hbang].
    + exists self. eexists. split; [reflexivity|]. split; now left.
    + cbv beta iota zeta.
      assert (Hl : forall x : CommandLineClient,
                 x = (if str_eqb (c :: rest) (lit "EOF")
                      then {| lastcmd := [] |}
                      else {| lastcmd := c :: rest |}) ->
                 lastcmd x = lastcmd self \/ lastcmd x = []
                 \/ lastcmd x = c :: rest
                 \/ lastcmd x = lit "help " ++ tl (c :: rest)).
      { intros x ->. destruct (str_eqb (c :: rest) (lit "EOF")); auto. }
      destruct (firstn (ident_len (c :: rest)) (c :: rest)) as [|a w].
      * do 2 eexists. split; [reflexivity|]. split; [now left|now apply Hl].
      * destruct (getattr_do (a :: w)) as [[]|].
        -- do 2 eexists. split; [reflexivity|].
           split; [right; eexists; reflexivity|now apply Hl].
        -- do 2 eexists. split; [reflexivity|].
           split; [now left|now apply Hl].
Qed.

(** From a state that [emptyline] can handle, two nested calls are enough
    for any line, the stop flag is false, and the state stays of that kind:
    the command runs on the line or, for a blank line, on the last
    command. *)
Lemma onecmd_any (d : nat) (self : CommandLineClient) (line : str) :
  lastcmd_ok self ->
  exists self' t,
    onecmd (S (S d)) self line = Some (self', t, false)
    /\ lastcmd_ok self'
    /\ ((t = [] /\ self' = self)
        \/ exists x e,
             (x = line \/ x = lastcmd self) /\ t = [e]
             /\ (e = SockSend (strip x ++ [LF]) \/ exists a, e = HelpOutput a)
             /\ (lastcmd self' = lastcmd self \/ lastcmd self' = []
                 \/ lastcmd self' = strip x
                 \/ lastcmd self' = lit "help " ++ tl (strip x))).
Proof.
  intros Hok.
  assert (Hkeep : forall x self',
             (lastcmd self' = lastcmd self \/ lastcmd self' = []
              \/ lastcmd self' = strip x
              \/ lastcmd self' = lit "help " ++ tl (strip x)) ->
             strip x <> [] -> lastcmd_ok self').
  { intros x self' [E|[E|[E|E]]] Hx; unfold lastcmd_ok; rewrite E.
    - exact Hok.
    - now left.
    - right. now rewrite strip_idem.
    - right. apply strip_help. }
  destruct (strip line) as [|c rest] eqn:Hs.
  - rewrite onecmd_blank by assumption.
    destruct (lastcmd self) as [|a l] eqn:Hl.
    + exists self, []. split; [reflexivity|]. split; [exact Hok|now left].
    + assert (Hx : strip (a :: l) <> []).
      { destruct Hok as [Hok|Hok]; [rewrite Hl in Hok; discriminate|].
        now rewrite Hl in Hok. }
      destruct (onecmd_nonblank d self (a :: l) Hx) as [self' [e [E [He Hc]]]].
      exists self', [e]. split; [exact E|].
      rewrite Hl in Hc. split; [now apply (Hkeep (a :: l))|].
      right. exists (a :: l), e. auto.
  - assert (Hx : strip line <> []) by (rewrite Hs; discriminate).
    destruct (onecmd_nonblank (S d) self line Hx) as [self' [e [E [He Hc]]]].
    exists self', [e]. split; [exact E|].
    split; [now apply (Hkeep line)|].
    right. exists line, e. auto.
Qed.

Lemma sent_app (a b : list effect) : sent (a ++ b) = sent a ++ sent b.
Proof. apply flat_map_app. Qed.

(** The loop, observed for any number of iterations from a state that
    [emptyline] can handle: it is still running, it did nothing but prompt,
    send and print help, and it sent at most one message per iteration. *)
Lemma cmdloop_shape (d n : nat) :
  forall self stdin,
    lastcmd_ok self ->
    exists t,
      cmdloop (S (S d)) n self stdin = Running t
      /\ forallb loop_effect t = true
      /\ length (sent t) <= n.
Proof.
  induction n as [|n IH]; intros self stdin Hok.
  - exists []. repeat split. simpl. lia.
  - cbn [cmdloop]. destruct (raw_input stdin) as [input rest].
    unfold precmd, postcmd.
    destruct (@onecmd_any d self
                (match input with Some l => l | None => lit "EOF" end) Hok)
      as [self' [t [E [Hok' Ht]]]].
    rewrite E. destruct (@IH self' rest Hok') as [t' [E' [Hl' Hn']]].
    rewrite E'. cbn [after].
    exists ((StdoutWrite prompt :: t) ++ t'). split; [reflexivity|].
    rewrite forallb_app, sent_app, length_app, Hl'.
    destruct Ht as [[-> _]|[x [e [_ [-> [He _]]]]]].
    + split; [reflexivity|]. simpl. lia.
    + destruct He as [->|[a ->]]; split; try reflexivity; simpl; lia.
Qed.

Lemma new_client_ok : lastcmd_ok new_client.
Proof. now left. Qed.

(** X5: whatever is typed, and however long the loop is observed, the
    interactive loop of a new client has not returned and has raised
    nothing: no line makes a command return a true stop flag, and the
    mutual recursion of [onecmd] and [emptyline] stops at the second call.
    All it does is prompt, send and print help. *)
Theorem cmdloop_never_stops (d n : nat) (stdin : list str) :
  exists t,
    cmdloop (S (S d)) n new_client stdin = Running t
    /\ forallb loop_effect t = true.
Proof.
  destruct (@cmdloop_shape d n new_client stdin new_client_ok) as [t [E [Hl _]]].
  now exists t.
Qed.

(** X6: an iteration of the loop sends at most one message: after [n]
    iterations on any input, at most [n] sends were issued. *)
Theorem cmdloop_one_send_per_line (d n : nat) (stdin : list str) :
  length (sent (trace_of (cmdloop (S (S d)) n new_client stdin))) <= n.
Proof.
  destruct (@cmdloop_shape d n new_client stdin new_client_ok) as [t [E [_ Hn]]].
  now rewrite E.
Qed.


Lemma onecmd_remembered (d : nat) (self : CommandLineClient) (line : str) :
  remembered line = true ->
  onecmd (S d) self line
  = Some ({| lastcmd := strip line |}, [SockSend (strip line ++ [LF])], false).
Proof.
  unfold remembered, forwarded. cbn [onecmd]. unfold parseline.
  destruct (strip line) as [|c rest] eqn:Hs; [discriminate|].
  intros H. apply andb_prop in H. destruct H as [H Heof].
  apply andb_prop in H. destruct H as [H Hbang].
  apply andb_prop in H. destruct H as [Hq Hhelp].
  apply negb_true_iff in Heof, Hhelp.
  destruct (ascii_dec c "?"); [discriminate|].
  destruct (ascii_dec c "!"); [discriminate|].
  cbv beta iota zeta. rewrite Heof. unfold getattr_do. rewrite Hhelp.
  now destruct (firstn (ident_len (c :: rest)) (c :: rest)).
Qed.

Lemma remembered_strip (line : str) : remembered (strip line) = remembered line.
Proof. unfold remembered, forwarded. now rewrite strip_idem. Qed.

(** X8: a blank line after a line that was forwarded and remembered (one
    that does not start with an exclamation mark and is not [EOF]) sends
    that line a second time: the peer receives the message twice. *)
Theorem cmdloop_blank_repeats (d n : nat) (self : CommandLineClient)
    (line blank : str) (rest : list str) :
  remembered line = true -> strip blank = [] ->
  cmdloop (S (S d)) (S (S n)) self (line :: blank :: rest)
  = after [ StdoutWrite prompt; SockSend (strip line ++ [LF]);
            StdoutWrite prompt; SockSend (strip line ++ [LF]) ]
      (cmdloop (S (S d)) n {| lastcmd := strip line |} rest).
Proof.
  intros Hr Hb.
  rewrite (@cmdloop_step (S (S d)) (S n) self line (blank :: rest)
             {| lastcmd := strip line |} [SockSend (strip line ++ [LF])])
    by now apply onecmd_remembered.
  rewrite (@cmdloop_step (S (S d)) n {| lastcmd := strip line |} blank rest
             {| lastcmd := strip line |} [SockSend (strip line ++ [LF])]).
  - now rewrite after_app.
  - rewrite onecmd_blank by assumption. cbn [lastcmd].
    pose proof (@onecmd_remembered d {| lastcmd := strip line |} (strip line))
      as E.
    rewrite remembered_strip, strip_idem in E. specialize (E Hr).
    destruct (strip line) as [|c l] eqn:Hs; [|exact E].
    unfold remembered in Hr. rewrite Hs in Hr.
    rewrite andb_false_r in Hr. discriminate.
Qed.

Lemma cmdloop_blank_repeats_witness :
  cmdloop 2 2 new_client [lit "bid 5"; lit "  "]
  = after [ StdoutWrite prompt; SockSend (lit "bid 5" ++ [LF]);
            StdoutWrite prompt; SockSend (lit "bid 5" ++ [LF]) ]
      (cmdloop 2 0 {| lastcmd := lit "bid 5" |} []).
Proof.
  exact (@cmdloop_blank_repeats 0 0 new_client (lit "bid 5") (lit "  ") []
           eq_refl eq_refl).
Defined.

(** ** Sender and receiver: the wire *)

Lemma no_LF_tl (l : str) : no_LF l = true -> no_LF (tl l) = true.
Proof.
  destruct l as [|c l]; [reflexivity|].
  simpl. now destruct (ascii_dec c LF).
Qed.

(** With no line feed inside the lines typed, everything the loop sends
    is a stripped line, free of line feeds, followed by one. *)
Lemma cmdloop_sends_frames (d n : nat) :
  forall self stdin,
    lastcmd_ok self -> no_LF (lastcmd self) = true ->
    forallb no_LF stdin = true ->
    Forall (fun data => exists s, data = s ++ [LF] /\ no_LF s = true
                                  /\ ends_space s = false)
      (sent (trace_of (cmdloop (S (S d)) n self stdin))).
Proof.
  induction n as [|n IH]; intros self stdin Hok Hlast Hin; [constructor|].
  cbn [cmdloop]. destruct (raw_input stdin) as [input rest] eqn:Hraw.
  unfold precmd, postcmd.
  set (line := match input with Some l => l | None => lit "EOF" end).
  assert (Hline : no_LF line = true /\ forallb no_LF rest = true).
  { destruct stdin as [|l stdin]; injection Hraw as <- <-.
    - now split.
    - simpl in Hin. now apply andb_prop in Hin. }
  destruct Hline as [Hline Hrest].
  destruct (@onecmd_any d self line Hok) as [self' [t [E [Hok' Ht]]]].
  rewrite E. rewrite trace_of_after. cbn [app]. 
  change (StdoutWrite prompt :: t ++ trace_of (cmdloop (S (S d)) n self' rest))
    with ([StdoutWrite prompt] ++ t ++ trace_of (cmdloop (S (S d)) n self' rest)).
  rewrite !sent_app. cbn [sent flat_map app].
  destruct Ht as [[-> ->]|[x [e [Hx [-> [He Hc]]]]]].
  - now apply IH.
  - assert (Hnx : no_LF x = true) by (destruct Hx as [->| ->]; assumption).
    apply Forall_app. split.
    + destruct He as [->|[a ->]]; [|constructor].
      repeat constructor. exists (strip x). repeat split.
      * now apply no_LF_strip.
      * apply ends_space_strip.
    + apply IH; [assumption| |assumption].
      destruct Hc as [->|[->|[->| ->]]]; auto.
      * now apply no_LF_strip.
      * rewrite no_LF_app. now rewrite no_LF_tl by now apply no_LF_strip.
Qed.

Lemma frames_of_sends (l : list str) :
  Forall (fun data => exists s, data = s ++ [LF] /\ no_LF s = true
                                /\ ends_space s = false) l ->
  exists ls,
    l = map (fun s => s ++ [LF]) ls
    /\ forallb no_LF ls = true
    /\ forallb (fun s => negb (ends_space s)) ls = true.
Proof.
  induction 1 as [|data l [s [-> [Hn He]]] _ [ls [-> [Hls Hes]]]].
  - now exists [].
  - exists (s :: ls). simpl. now rewrite Hn, He, Hls, Hes.
Qed.

(** X9: what the client sends, a receiver of this client displays as typed.
    When the lines typed hold no line feed, the bytes sent by the loop are
    whole frames, one per message, and [Receiver.run] on those bytes
    displays exactly the messages that were sent, each without its line
    feed, in order. *)
Theorem cmdloop_to_Receiver (d n : nat) (stdin : list str) :
  forallb no_LF stdin = true ->
  exists ls,
    sent (trace_of (cmdloop (S (S d)) n new_client stdin))
    = map (fun l => l ++ [LF]) ls
    /\ Receiver_run
         (concat (sent (trace_of (cmdloop (S (S d)) n new_client stdin))))
       = SockMakefile :: map displayed ls ++ [FileClose].
Proof.
  intros Hin.
  destruct (frames_of_sends
              (@cmdloop_sends_frames d n new_client stdin new_client_ok
                 eq_refl Hin)) as [ls [E [Hls Hes]]].
  exists ls. split; [exact E|]. rewrite E.
  change (concat (map (fun l => l ++ [LF]) ls)) with (wire ls).
  rewrite <- (app_nil_r (wire ls)).
  rewrite Receiver_run_stream by auto.
  cbn [tail_frame]. rewrite app_nil_r. do 2 f_equal.
  apply map_ext_in. intros l Hl.
  rewrite forallb_forall in Hes. specialize (Hes l Hl).
  rewrite rstrip_fixed; [reflexivity|]. now destruct (ends_space l).
Qed.

Lemma cmdloop_to_Receiver_witness :
  exists ls,
    sent (trace_of (cmdloop 2 3 new_client [lit " bid 5 "; lit "help"; lit "!x"]))
    = map (fun l => l ++ [LF]) ls
    /\ Receiver_run
         (concat (sent (trace_of
            (cmdloop 2 3 new_client [lit " bid 5 "; lit "help"; lit "!x"]))))
       = SockMakefile :: map displayed ls ++ [FileClose].
Proof.
  exact (@cmdloop_to_Receiver 0 3 [lit " bid 5 "; lit "help"; lit "!x"] eq_refl).
Defined.

(** ** The URL table: what it accepts and what it rejects *)

Lemma strip_prefix_Some (l s s' : ustr) :
  strip_prefix l s = Some s' -> s = l ++ s'.
Proof.
  revert s. induction l as [|a l IH]; intros s; simpl.
  - now intros [= ->].
  - destruct s as [|b s]; [discriminate|].
    destruct (N.eqb a b) eqn:E; [|discriminate].
    apply N.eqb_eq in E. subst b. intros H. now rewrite (IH s H).
Qed.

Lemma resolve_In (is_digit : uchar -> bool) (table : list url_pattern)
    (path : ustr) (v : view) (kw : groupdict) :
  resolve is_digit table path = Some (v, kw) ->
  exists p,
    In p table /\ re_search is_digit (pattern p) path = Some kw
    /\ callback p = v.
Proof.
  induction table as [|p table IH]; simpl; [discriminate|].
  destruct (re_search is_digit (pattern p) path) as [g|] eqn:E.
  - intros [= <- <-]. exists p. auto.
  - intros H. destruct (IH H) as [q [Hq Hm]]. exists q. auto.
Qed.

Section Table.

Variable is_digit : uchar -> bool.
Hypothesis slash_not_digit : is_digit 47%N = false.

(** What a route of a draft matches: digits, a slash, its text, and at
    most one line feed. *)
Lemma route_form (name : string) (text s : ustr) (g : groupdict) :
  re_search is_digit [Bol; NamedDigits name; Chars (47%N :: text); Eol] s
  = Some g ->
  exists ds nl,
    s = ds ++ 47%N :: text ++ nl /\ ds <> []
    /\ forallb is_digit ds = true /\ (nl = [] \/ nl = [10%N])
    /\ g = [(name, ds)].
Proof.
  change [Bol; NamedDigits name; Chars (47%N :: text); Eol]
    with (route name text).
  rewrite (@route_search is_digit slash_not_digit).
  destruct (digit_run is_digit s) as [|n] eqn:Hn; [discriminate|].
  rewrite <- Hn.
  destruct (strip_prefix _ _) as [s'|] eqn:Hsp; [|discriminate].
  destruct (ustr_eqb s' [] || ustr_eqb s' [10%N]) eqn:He; [|discriminate].
  intros [= <-].
  apply strip_prefix_Some in Hsp.
  exists (firstn (digit_run is_digit s) s), s'. repeat split.
  - rewrite <- (firstn_skipn (digit_run is_digit s) s) at 1.
    now rewrite Hsp.
  - rewrite Hn. destruct s; [discriminate|]. discriminate.
  - apply digit_run_split.
  - apply orb_prop in He.
    destruct He as [He|He]; apply ustr_eqb_eq in He; auto.
Qed.

Lemma index_form (s : ustr) (g : groupdict) :
  re_search is_digit [Bol; Eol] s = Some g ->
  (s = [] \/ s = [10%N]) /\ g = [].
Proof.
  rewrite (@index_search is_digit).
  destruct (ustr_eqb s [] || ustr_eqb s [10%N]) eqn:He; [|discriminate].
  intros [= <-]. split; [|reflexivity].
  apply orb_prop in He. destruct He as [He|He]; apply ustr_eqb_eq in He; auto.
Qed.

Lemma urlpatterns_split (p : url_pattern) :
  In p urlpatterns ->
  p = {| pattern := [Bol; Eol]; callback := index; name := Some "index"%string |}
  \/ In p draft_routes.
Proof. unfold urlpatterns, draft_routes. cbn [tl In]. intros [<-|H]; auto. Qed.

(** Two paths that start with digits and a slash and are equal have the
    same digits and the same rest. *)
Lemma same_segment (ds1 ds2 r1 r2 : ustr) :
  forallb is_digit ds1 = true -> forallb is_digit ds2 = true ->
  ds1 ++ 47%N :: r1 = ds2 ++ 47%N :: r2 -> ds1 = ds2 /\ r1 = r2.
Proof.
  intros H1 H2 E.
  assert (Hd : ds1 = ds2).
  { apply (f_equal leading_segment) in E.
    now rewrite !(@leading_segment_digits is_digit slash_not_digit) in E. }
  subst ds2. split; [reflexivity|].
  apply app_inv_head in E. now injection E.
Qed.

(** X10: the table dispatches nothing else.  When a path resolves, either
    the view is [index] and the path is empty or a lone line feed, or the
    path is a run of digits, a slash, the text of one of the routes of a
    draft and at most one final line feed; the view is that route's, and
    [draft_id] is bound to the digits, which are the first segment of the
    path, not empty and made of digits only. *)
Theorem urlpatterns_only (path : ustr) (v : view) (kw : groupdict) :
  resolve is_digit urlpatterns path = Some (v, kw) ->
  (v = index /\ kw = [] /\ (path = [] \/ path = [10%N]))
  \/ exists p text ds nl,
       In p draft_routes /\ pattern p = route "draft_id" text
       /\ v = callback p
       /\ path = ds ++ 47%N :: text ++ nl /\ (nl = [] \/ nl = [10%N])
       /\ ds <> [] /\ forallb is_digit ds = true
       /\ kw = [("draft_id"%string, ds)]
       /\ leading_segment path = ds.
Proof.
  intros H. apply resolve_In in H. destruct H as [p [Hp [Hm Hv]]].
  apply urlpatterns_split in Hp. destruct Hp as [->|Hp].
  - left. cbn [pattern callback] in *. apply index_form in Hm.
    destruct Hm as [Hs ->]. auto.
  - right. destruct (draft_routes_shape Hp) as [text Ht].
    rewrite Ht in Hm. apply route_form in Hm.
    destruct Hm as [ds [nl [-> [Hne [Hds [Hnl ->]]]]]].
    exists p, text, ds, nl. repeat split; auto.
    now apply (@leading_segment_digits is_digit slash_not_digit).
Qed.

Ltac literal_text H :=
  cbn [pattern url] in H;
  try match type of H with
      | re_search _ [Bol; NamedDigits ?n; Chars ?t; Eol] _ = _ =>
          let t' := eval cbv in t in change t with t' in H
      end.

Ltac match_form H :=
  literal_text H;
  first
    [ apply index_form in H; destruct H as [[H|H] _]
    | apply route_form in H;
      let ds := fresh "ds" in
      let nl := fresh "nl" in
      let Hne := fresh "Hne" in
      let Hds := fresh "Hds" in
      let Hnl := fresh "Hnl" in
      destruct H as [ds [nl [H [Hne [Hds [Hnl _]]]]]];
      destruct Hnl as [Hnl|Hnl]; rewrite Hnl in H; clear Hnl ].

Ltac clash Hp Hq :=
  rewrite Hp in Hq;
  first
    [ discriminate Hq
    | match type of Hq with
      | ?x = ?ds ++ _ =>
          destruct ds as [|? [|? ?]]; [contradiction|discriminate Hq..]
      | ?ds ++ _ = ?x =>
          destruct ds as [|? [|? ?]]; [contradiction|discriminate Hq..]
      end
    | apply same_segment in Hq; [|assumption..];
      destruct Hq as [_ Hq]; vm_compute in Hq; discriminate Hq ].

(** X11: the routes exclude each other: no path is matched by two patterns
    of the table, so the order of the patterns decides nothing. *)
Theorem urlpatterns_exclusive (path : ustr) (p q : url_pattern)
    (gp gq : groupdict) :
  In p urlpatterns -> In q urlpatterns ->
  re_search is_digit (pattern p) path = Some gp ->
  re_search is_digit (pattern q) path = Some gq ->
  p = q.
Proof.
  unfold urlpatterns. cbn [In].
  intros [<-|[<-|[<-|[<-|[<-|[<-|[<-|[]]]]]]]]
         [<-|[<-|[<-|[<-|[<-|[<-|[<-|[]]]]]]]] Hp Hq;
    try reflexivity; exfalso;
    match_form Hp; match_form Hq; clash Hp Hq.
Qed.

Ltac walk_table' :=
  unfold urlpatterns, url; cbn [resolve pattern callback];
  rewrite (@index_search_digits is_digit) by assumption;
  repeat match goal with
  | |- context [re_search is_digit [Bol; NamedDigits ?n; Chars ?t; Eol] _] =>
      let t' := eval cbv in t in
      match t' with
      | 47%N :: ?r => change [Bol; NamedDigits n; Chars t; Eol] with (route n r)
      end
  end;
  repeat first
    [ rewrite (@route_miss is_digit slash_not_digit "draft_id")
        by (assumption || reflexivity)
    | rewrite (@route_hit is_digit slash_not_digit "draft_id")
        by (assumption || reflexivity) ];
  reflexivity.

(** X12: one line feed at the end of a path is ignored, because [$] also
    matches just before a final line feed: a path of digits, a slash, an
    action name and a line feed goes to the view of that name with the
    digits as [draft_id], and a path that is a lone line feed goes to
    [index]. *)
Theorem urlpatterns_final_newline :
  (forall ds, ds <> [] -> forallb is_digit ds = true ->
     resolve is_digit urlpatterns (ds ++ ulit "/register" ++ [10%N])
     = Some (register, [("draft_id"%string, ds)])
     /\ resolve is_digit urlpatterns (ds ++ ulit "/get_manager_updates" ++ [10%N])
        = Some (get_manager_updates, [("draft_id"%string, ds)])
     /\ resolve is_digit urlpatterns (ds ++ ulit "/get_player_updates" ++ [10%N])
        = Some (get_player_updates, [("draft_id"%string, ds)])
     /\ resolve is_digit urlpatterns (ds ++ ulit "/get_team" ++ [10%N])
        = Some (get_team, [("draft_id"%string, ds)])
     /\ resolve is_digit urlpatterns (ds ++ ulit "/place_bid" ++ [10%N])
        = Some (place_bid, [("draft_id"%string, ds)])
     /\ resolve is_digit urlpatterns (ds ++ ulit "/" ++ [10%N])
        = Some (draft, [("draft_id"%string, ds)]))
  /\ resolve is_digit urlpatterns [10%N] = Some (index, []).
Proof.
  split; [|reflexivity].
  intros ds Hne Hds. repeat split.
  - change (ulit "/register" ++ [10%N])
      with (47%N :: ulit "register" ++ [10%N]). walk_table'.
  - change (ulit "/get_manager_updates" ++ [10%N])
      with (47%N :: ulit "get_manager_updates" ++ [10%N]). walk_table'.
  - change (ulit "/get_player_updates" ++ [10%N])
      with (47%N :: ulit "get_player_updates" ++ [10%N]). walk_table'.
  - change (ulit "/get_team" ++ [10%N])
      with (47%N :: ulit "get_team" ++ [10%N]). walk_table'.
  - change (ulit "/place_bid" ++ [10%N])
      with (47%N :: ulit "place_bid" ++ [10%N]). walk_table'.
  - change (ulit "/" ++ [10%N]) with (47%N :: ulit "" ++ [10%N]). walk_table'.
Qed.

Lemma unresolved_path (path : ustr) :
  (forall p g, In p urlpatterns ->
     re_search is_digit (pattern p) path = Some g -> False) ->
  resolve is_digit urlpatterns path = None.
Proof.
  intros H. destruct (resolve is_digit urlpatterns path) as [[v kw]|] eqn:E;
    [exfalso|reflexivity].
  apply resolve_In in E. destruct E as [p [Hp [Hm _]]]. exact (H p kw Hp Hm).
Qed.

(** X13: the digits and the slash after them are both required.  A path
    that starts with a slash resolves to nothing, and neither does a path
    made of digits alone, without the slash. *)
Theorem urlpatterns_not_found :
  (forall rest, resolve is_digit urlpatterns (47%N :: rest) = None)
  /\ (is_digit 10%N = false ->
      forall ds, ds <> [] -> forallb is_digit ds = true ->
        resolve is_digit urlpatterns ds = None).
Proof.
  split.
  - intros rest. apply unresolved_path. intros p g Hp Hm.
    apply urlpatterns_split in Hp. destruct Hp as [->|Hp].
    + apply index_form in Hm. destruct Hm as [[Hm|Hm] _]; discriminate.
    + destruct (draft_routes_shape Hp) as [text Ht].
      rewrite Ht in Hm. apply route_form in Hm.
      destruct Hm as [ds [nl [E [Hne [Hds _]]]]].
      destruct ds as [|d ds]; [contradiction|].
      injection E as <- _. simpl in Hds. now rewrite slash_not_digit in Hds.
  - intros Hnl ds Hne Hds. apply unresolved_path. intros p g Hp Hm.
    apply urlpatterns_split in Hp. destruct Hp as [->|Hp].
    + apply index_form in Hm. destruct Hm as [[->| ->] _]; [contradiction|].
      simpl in Hds. now rewrite Hnl in Hds.
    + destruct (draft_routes_shape Hp) as [text Ht].
      rewrite Ht in Hm. apply route_form in Hm.
      destruct Hm as [ds' [nl [-> _]]].
      rewrite forallb_app in Hds. simpl in Hds.
      rewrite slash_not_digit, andb_false_r in Hds. discriminate.
Qed.

End Table.

Lemma urlpatterns_only_witness :
  (get_team = index /\ [("draft_id"%string, ulit "7")] = []
   /\ (ulit "7/get_team" = [] \/ ulit "7/get_team" = [10%N]))
  \/ exists p text ds nl,
       In p draft_routes /\ pattern p = route "draft_id" text
       /\ get_team = callback p
       /\ ulit "7/get_team" = ds ++ 47%N :: text ++ nl
       /\ (nl = [] \/ nl = [10%N])
       /\ ds <> [] /\ forallb ascii_digit ds = true
       /\ [("draft_id"%string, ulit "7")] = [("draft_id"%string, ds)]
       /\ leading_segment (ulit "7/get_team") = ds.
Proof.
  exact (@urlpatterns_only ascii_digit eq_refl (ulit "7/get_team") get_team
           [("draft_id"%string, ulit "7")] eq_refl).
Defined.

Lemma urlpatterns_exclusive_witness :
  url [Bol; NamedDigits "draft_id"; Chars (ulit "/get_team"); Eol] get_team
  = url [Bol; NamedDigits "draft_id"; Chars (ulit "/get_team"); Eol] get_team.
Proof.
  refine (@urlpatterns_exclusive ascii_digit eq_refl (ulit "7/get_team")
            (url [Bol; NamedDigits "draft_id"; Chars (ulit "/get_team"); Eol]
               get_team)
            (url [Bol; NamedDigits "draft_id"; Chars (ulit "/get_team"); Eol]
               get_team)
            [("draft_id"%string, ulit "7")] [("draft_id"%string, ulit "7")]
            _ _ eq_refl eq_refl);
    unfold urlpatterns; cbn [In]; do 5 right; left; reflexivity.
Defined.

Lemma urlpatterns_final_newline_witness :
  resolve ascii_digit urlpatterns (ulit "42" ++ ulit "/register" ++ [10%N])
  = Some (register, [("draft_id"%string, ulit "42")]).
Proof.
  refine (proj1 (proj1 (@urlpatterns_final_newline ascii_digit eq_refl)
                   (ulit "42") _ eq_refl)).
  discriminate.
Defined.

Lemma urlpatterns_not_found_witness :
  resolve ascii_digit urlpatterns (ulit "42") = None.
Proof.
  refine (proj2 (@urlpatterns_not_found ascii_digit eq_refl) eq_refl
            (ulit "42") _ eq_refl).
  discriminate.
Defined.
